(** * Tic Tac Toe (Expo / React Native): the game core of [App.tsx]

    A shallow embedding of the pure rule functions ([createEmptyBoard],
    [oppositePlayer], [getWinner], [isDraw], [computeStatus]) and of the three
    event handlers of the [App] component ([applyMove], [restartRound],
    [resetScoresAndRestart]), followed by the properties of the
    specification; then the values the component derives for its render
    ([statusText], [statusColor], [winningSet], the [disabled] flag of a
    cell) and properties of whole rounds.

    Conventions of the embedding.
    - A [Cell] is [Player | null]: [None] is [null].
    - A [Board] is a JavaScript array of cells, a [list Cell] of any length.
    - Reading [board[i]] gives [undefined] outside the array: [arr_get]
      returns an [option], [None] being [undefined].
    - Indices are JavaScript numbers holding integers: [Z].
    - The score counters are JavaScript numbers (IEEE 754 doubles) holding
      integers; [js_add] is their [+], rounded to the nearest double.
    - The three [useState] cells of the component form one [Session] record;
      a handler is a function from the session of the render in which it was
      created to the session of the next render. *)

From stdpp Require Import base numbers list strings gmap.

Local Open Scope Z_scope.

(** ** Data model *)

(** [type Player = 'X' | 'O'] *)
Inductive Player : Set :=
| PlayerX
| PlayerO.

#[global] Instance Player_eq_dec : EqDecision Player.
Proof. solve_decision. Defined.

(** [type Cell = Player | null] *)
Abbreviation Cell := (option Player) (only parsing).

(** [type Board = Cell[]] *)
Abbreviation Board := (list Cell) (only parsing).

(** The value of the expression [arr[i]] for an integer [i]: the element when
    [0 <= i < arr.length], and [undefined] (here [None]) otherwise. *)
Definition arr_get {A : Type} (arr : list A) (i : Z) : option A :=
  if bool_decide (0 <= i) then arr !! Z.to_nat i else None.

(** The array after [arr[i] = v], for an index inside the array.  The
    handlers only assign after having read [null] at the same index, which
    puts the index inside the array (lemma [arr_get_Some_range]); outside
    it JavaScript would grow the array, a case no path of this program
    reaches, and the list is returned as it is. *)
Definition arr_set {A : Type} (arr : list A) (i : Z) (v : A) : list A :=
  if bool_decide (0 <= i) then <[Z.to_nat i := v]> arr else arr.

(** [WINNING_LINES] *)
Definition WINNING_LINES : list (list Z) :=
  [ [0; 1; 2];
    [3; 4; 5];
    [6; 7; 8];
    [0; 3; 6];
    [1; 4; 7];
    [2; 5; 8];
    [0; 4; 8];
    [2; 4; 6] ].

(** The result object of [getWinner]:
    [{ winner: Player | null; winningLine: number[] | null }]. *)
Record WinnerResult : Set := mkWinnerResult {
  winner : option Player;
  winningLine : option (list Z)
}.

(** [type GameStatus] *)
Inductive GameStatus : Set :=
| PLAYING (nextPlayer : Player)
| WON (winner : Player) (winningLine : list Z)
| DRAW.

(** The double nearest to the integer [z], by the rule of IEEE 754
    (round to nearest, ties to the even significand; 53 bits of
    significand).  Every integer of magnitude below 2^53 is a double; above,
    [e] low bits are dropped, [q] is the significand kept and [r] the part
    dropped.  The range of the exponent is not modelled: adding 1 to a
    finite double never leaves it. *)
Definition round_to_double (z : Z) : Z :=
  if Z.abs z <? 2 ^ 53 then z
  else
    let e := Z.log2 (Z.abs z) - 52 in
    let q := Z.abs z / 2 ^ e in
    let r := Z.abs z mod 2 ^ e in
    let half := 2 ^ (e - 1) in
    Z.sgn z
    * ((if r <? half then q
        else if half <? r then q + 1
        else if Z.even q then q else q + 1)
       * 2 ^ e).

(** [x + y] on two numbers holding integers. *)
Definition js_add (x y : Z) : Z := round_to_double (x + y).

(** The [scores] state: [{ X: number; O: number; draws: number }], each
    field holding the integer value of its number. *)
Record Scores : Set := mkScores {
  score_X : Z;
  score_O : Z;
  draws : Z
}.

(** The state of the [App] component: its three [useState] cells. *)
Record Session : Set := mkSession {
  board : Board;
  nextPlayer : Player;
  scores : Scores
}.

(** ** Rule functions *)

(** [createEmptyBoard]: [Array.from({ length: 9 }, () => null)] *)
Definition createEmptyBoard : Board := replicate 9 None.

(** [oppositePlayer] *)
Definition oppositePlayer (player : Player) : Player :=
  if decide (player = PlayerX) then PlayerO else PlayerX.

(** The body of the loop of [getWinner] for one line: with
    [const [a, b, c] = line; const v = board[a];] it is the test
    [v && v === board[b] && v === board[c]], returning [v] when it holds.
    [v] is truthy exactly when it is a mark.  A line with fewer than three
    entries leaves one of [a], [b], [c] undefined, the read at it gives
    [undefined] and the test fails. *)
Definition line_winner (board : Board) (line : list Z) : option Player :=
  match line with
  | a :: b :: c :: _ =>
      match arr_get board a with
      | Some (Some v) =>
          if bool_decide (arr_get board b = Some (Some v))
             && bool_decide (arr_get board c = Some (Some v))
          then Some v
          else None
      | _ => None
      end
  | _ => None
  end.

(** The [for (const line of lines)] loop of [getWinner]. *)
Fixpoint getWinner_scan (lines : list (list Z)) (board : Board) : WinnerResult :=
  match lines with
  | [] => {| winner := None; winningLine := None |}
  | line :: rest =>
      match line_winner board line with
      | Some v => {| winner := Some v; winningLine := Some line |}
      | None => getWinner_scan rest board
      end
  end.

(** [getWinner] *)
Definition getWinner (board : Board) : WinnerResult :=
  getWinner_scan WINNING_LINES board.

(** [isDraw]: [board.every((c) => c !== null) && getWinner(board).winner === null] *)
Definition isDraw (board : Board) : bool :=
  forallb (fun c => bool_decide (c <> None)) board
  && bool_decide (winner (getWinner board) = None).

(** [computeStatus] *)
Definition computeStatus (board : Board) (nextPlayer : Player) : GameStatus :=
  match winner (getWinner board), winningLine (getWinner board) with
  | Some w, Some l => WON w l
  | _, _ => if isDraw board then DRAW else PLAYING nextPlayer
  end.

(** ** The component's state and handlers *)

(** The state of the first render. *)
Definition initialSession : Session :=
  {| board := createEmptyBoard;
     nextPlayer := PlayerX;
     scores := {| score_X := 0; score_O := 0; draws := 0 |} |}.

(** [const status = useMemo(() => computeStatus(board, nextPlayer), ...)] *)
Definition status (s : Session) : GameStatus :=
  computeStatus (board s) (nextPlayer s).

(** [s[p]] on the scores object. *)
Definition score_of (p : Player) (s : Scores) : Z :=
  match p with
  | PlayerX => score_X s
  | PlayerO => score_O s
  end.

(** [{ ...s, [p]: s[p] + 1 }] *)
Definition bump_player (p : Player) (s : Scores) : Scores :=
  match p with
  | PlayerX =>
      {| score_X := js_add (score_X s) 1; score_O := score_O s; draws := draws s |}
  | PlayerO =>
      {| score_X := score_X s; score_O := js_add (score_O s) 1; draws := draws s |}
  end.

(** [{ ...s, draws: s.draws + 1 }] *)
Definition bump_draws (s : Scores) : Scores :=
  {| score_X := score_X s; score_O := score_O s; draws := js_add (draws s) 1 |}.

(** [applyMove]: the updater given to [setBoard] runs on the current board
    with the [nextPlayer] of the current render; where it returns [prev] no
    state changes, otherwise it queues the score and turn updates and
    returns the new board. *)
Definition applyMove (s : Session) (index : Z) : Session :=
  let prev := board s in
  match computeStatus prev (nextPlayer s) with
  | PLAYING _ =>
      if bool_decide (arr_get prev index <> Some None) then s
      else
        let next := arr_set prev index (Some (nextPlayer s)) in
        let afterStatus := computeStatus next (oppositePlayer (nextPlayer s)) in
        {| board := next;
           nextPlayer := oppositePlayer (nextPlayer s);
           scores :=
             match afterStatus with
             | WON w _ => bump_player w (scores s)
             | DRAW => bump_draws (scores s)
             | PLAYING _ => scores s
             end |}
  | _ => s
  end.

(** [restartRound(startingPlayer: Player = 'X')]; the argument is [None]
    when the call omits it. *)
Definition restartRound (s : Session) (startingPlayer : option Player) : Session :=
  {| board := createEmptyBoard;
     nextPlayer := default PlayerX startingPlayer;
     scores := scores s |}.

(** [resetScoresAndRestart] *)
Definition resetScoresAndRestart (s : Session) : Session :=
  restartRound
    {| board := board s;
       nextPlayer := nextPlayer s;
       scores := {| score_X := 0; score_O := 0; draws := 0 |} |}
    (Some PlayerX).

(** The user intents the component receives, and their effect. *)
Inductive Intent : Set :=
| Tap (index : Z)
| RestartRound (startingPlayer : option Player)
| ResetScores.

Definition handle (s : Session) (e : Intent) : Session :=
  match e with
  | Tap index => applyMove s index
  | RestartRound sp => restartRound s sp
  | ResetScores => resetScoresAndRestart s
  end.

(** The session after a sequence of intents, handled one at a time. *)
Definition run (s : Session) (es : list Intent) : Session :=
  foldl handle s es.

(** A tap the presentation layer can produce: an index of its 9-cell loop. *)
Definition in_grid (e : Intent) : Prop :=
  match e with
  | Tap index => 0 <= index <= 8
  | _ => True
  end.


(** ** What the specification calls a line of three identical marks *)

(** Every cell the line refers to holds the mark of [p]: the cells are then
    all non-empty and identical. *)
Definition line_marked (board : Board) (line : list Z) (p : Player) : Prop :=
  Forall (fun i => arr_get board i = Some (Some p)) line.

(** Every cell of the board holds a mark. *)
Definition board_full (board : Board) : Prop :=
  forall i, 0 <= i < Z.of_nat (length board) ->
            exists p, arr_get board i = Some (Some p).

(** A move the controller accepts: the round is in progress and the read at
    the index gives [null]. *)
Definition accepted (s : Session) (index : Z) : Prop :=
  (exists p, status s = PLAYING p) /\ arr_get (board s) index = Some None.

(** ** Sample boards and sessions *)

(** A full board whose top row belongs to X. *)
Definition full_board_top_row : Board :=
  [Some PlayerX; Some PlayerX; Some PlayerX;
   Some PlayerO; Some PlayerO; Some PlayerX;
   Some PlayerO; Some PlayerX; Some PlayerO].

(** A board in play whose top row belongs to X. *)
Definition top_row_board : Board :=
  [Some PlayerX; Some PlayerX; Some PlayerX;
   Some PlayerO; Some PlayerO; None;
   None; None; None].

(** The session after X has played cell 0. *)
Definition corner_taken : Session := applyMove initialSession 0.

(** The session in which X is one move from completing the top row. *)
Definition top_row_pending : Session :=
  run initialSession [Tap 0; Tap 3; Tap 1; Tap 4].

(** The same position with the counter of X at 2^53. *)
Definition top_row_pending_saturated : Session :=
  {| board := board top_row_pending;
     nextPlayer := PlayerX;
     scores := {| score_X := 2 ^ 53; score_O := 0; draws := 0 |} |}.

(** ** Values derived for the render *)

(** [status.kind === 'PLAYING'] *)
Definition is_playing (st : GameStatus) : bool :=
  match st with
  | PLAYING _ => true
  | _ => false
  end.

(** A [Player] interpolated in a template literal. *)
Definition player_text (p : Player) : string :=
  match p with
  | PlayerX => "X"
  | PlayerO => "O"
  end.

(** [statusText] *)
Definition statusText (s : Session) : string :=
  match status s with
  | WON w _ => "Player " +:+ player_text w +:+ " wins!"
  | DRAW => "It's a draw."
  | PLAYING np => "Player " +:+ player_text np +:+ "'s turn"
  end.

(** [statusColor]: [COLORS.success], [COLORS.secondaryText], [COLORS.text]. *)
Definition statusColor (s : Session) : string :=
  match status s with
  | WON _ _ => "#06b6d4"
  | DRAW => "#64748b"
  | PLAYING _ => "#111827"
  end.

(** [winningSet]: the set of the indices of the winning line, empty unless
    the round is won. *)
Definition winningSet (s : Session) : gset Z :=
  match status s with
  | WON _ l => list_to_set l
  | _ => empty
  end.

(** [const isWinningCell = winningSet.has(idx)] *)
Definition isWinningCell (s : Session) (idx : Z) : bool :=
  bool_decide (elem_of idx (winningSet s)).

(** [const isDisabled = cell !== null || status.kind !== 'PLAYING'], for the
    [cell] of one iteration of [board.map((cell, idx) => ...)]. *)
Definition isDisabled (s : Session) (cell : Cell) : bool :=
  bool_decide (cell <> None) || negb (is_playing (status s)).

(** ** Measures and symmetries used in the statements *)

(** The number of cells of a board that hold [c]. *)
Definition count_cell (c : Cell) (b : Board) : nat :=
  length (filter (fun x => x = c) b).

(** The number of marks of [p] on a board. *)
Definition marks (p : Player) (b : Board) : nat := count_cell (Some p) b.

(** The number of empty cells of a board. *)
Definition empties (b : Board) : nat := count_cell None b.

(** The sum of the three counters. *)
Definition rounds_counted (sc : Scores) : Z := score_X sc + score_O sc + draws sc.

(** The counters on which [+ 1] is exact. *)
Definition exact_counter (c : Z) : Prop := - 2 ^ 53 <= c < 2 ^ 53.

(** The counters a session can hold after any number of rounds. *)
Definition counter_in_range (c : Z) : Prop := 0 <= c <= 2 ^ 53.

Definition scores_in_range (sc : Scores) : Prop :=
  counter_in_range (score_X sc)
  /\ counter_in_range (score_O sc)
  /\ counter_in_range (draws sc).

(** The two guards of [applyMove] as a test: the status is playing and the
    read at the index gives [null]. *)
Definition acceptsb (s : Session) (index : Z) : bool :=
  is_playing (status s) && bool_decide (arr_get (board s) index = Some None).

(** The number of taps of a sequence that [applyMove] accepts, each tap
    being made in the session the taps before it have produced. *)
Fixpoint accepted_moves (s : Session) (idxs : list Z) : nat :=
  match idxs with
  | [] => 0%nat
  | index :: rest =>
      ((if acceptsb s index then 1 else 0)
       + accepted_moves (applyMove s index) rest)%nat
  end.

(** The board with the marks of the two players exchanged. *)
Definition swap_cell (c : Cell) : Cell := oppositePlayer <$> c.

Definition swap_board (b : Board) : Board := swap_cell <$> b.

Definition swap_result (r : WinnerResult) : WinnerResult :=
  {| winner := oppositePlayer <$> winner r; winningLine := winningLine r |}.

Definition swap_status (st : GameStatus) : GameStatus :=
  match st with
  | PLAYING p => PLAYING (oppositePlayer p)
  | WON w l => WON (oppositePlayer w) l
  | DRAW => DRAW
  end.

Definition swap_scores (sc : Scores) : Scores :=
  {| score_X := score_O sc; score_O := score_X sc; draws := draws sc |}.

(** The session with the roles of the two players exchanged. *)
Definition swap_session (s : Session) : Session :=
  {| board := swap_board (board s);
     nextPlayer := oppositePlayer (nextPlayer s);
     scores := swap_scores (scores s) |}.

(** ** Arrays *)

Section Arrays.
Context {A : Type}.
Implicit Types (arr : list A) (i j : Z) (v : A).

Lemma arr_get_Some_range arr i v :
  arr_get arr i = Some v -> 0 <= i < Z.of_nat (length arr).
Proof.
  unfold arr_get. case_bool_decide as Hi; [|discriminate].
  intros Hl. apply lookup_lt_Some in Hl. lia.
Qed.

Lemma arr_get_outside arr i :
  i < 0 \/ Z.of_nat (length arr) <= i -> arr_get arr i = None.
Proof.
  intros Hi. unfold arr_get. case_bool_decide; [|reflexivity].
  apply lookup_ge_None. lia.
Qed.

Lemma arr_get_inside arr i :
  0 <= i < Z.of_nat (length arr) -> exists v, arr_get arr i = Some v.
Proof.
  intros Hi. unfold arr_get. rewrite bool_decide_eq_true_2 by lia.
  apply lookup_lt_is_Some. lia.
Qed.

Lemma arr_set_length arr i v : length (arr_set arr i v) = length arr.
Proof. unfold arr_set. case_bool_decide; [apply length_insert | reflexivity]. Qed.

Lemma arr_get_set_eq arr i v :
  0 <= i < Z.of_nat (length arr) -> arr_get (arr_set arr i v) i = Some v.
Proof.
  intros Hi. unfold arr_get, arr_set.
  rewrite bool_decide_eq_true_2 by lia.
  apply list_lookup_insert_eq. lia.
Qed.

Lemma arr_get_set_ne arr i j v :
  j <> i -> arr_get (arr_set arr i v) j = arr_get arr j.
Proof.
  intros Hne. unfold arr_get, arr_set.
  case_bool_decide as Hj; [|reflexivity].
  case_bool_decide as Hi; [|reflexivity].
  apply list_lookup_insert_ne. lia.
Qed.

Lemma arr_get_of_nat arr (n : nat) : arr_get arr (Z.of_nat n) = arr !! n.
Proof.
  unfold arr_get. rewrite bool_decide_eq_true_2 by lia.
  by rewrite Nat2Z.id.
Qed.
End Arrays.

(** ** Numbers *)

Lemma js_add_exact (c : Z) : exact_counter c -> js_add c 1 = c + 1.
Proof.
  unfold exact_counter, js_add, round_to_double. intros Hc.
  destruct (decide (c + 1 = 2 ^ 53)) as [-> | Hne]; [reflexivity|].
  assert ((Z.abs (c + 1) <? 2 ^ 53) = true) as ->; [|reflexivity].
  apply Z.ltb_lt. lia.
Qed.

Lemma js_add_saturated : js_add (2 ^ 53) 1 = 2 ^ 53.
Proof. reflexivity. Qed.

Lemma round_to_double_nonneg (z : Z) : 0 <= z -> 0 <= round_to_double z.
Proof.
  intros Hz. unfold round_to_double.
  destruct (Z.abs z <? 2 ^ 53); [assumption|].
  apply Z.mul_nonneg_nonneg; [lia|].
  assert (0 <= Z.abs z / 2 ^ (Z.log2 (Z.abs z) - 52))
    by (apply Z_div_nonneg_nonneg; [lia | apply Z.pow_nonneg; lia]).
  apply Z.mul_nonneg_nonneg; [|apply Z.pow_nonneg; lia].
  repeat match goal with |- context [if ?b then _ else _] => destruct b end; lia.
Qed.

(** Rounding above 2^53, where the doubles are the even integers, and above
    2^54, where they are the multiples of four; ties go to the even
    significand. *)
Example round_to_double_samples :
  round_to_double (2 ^ 53 - 1) = 2 ^ 53 - 1
  /\ round_to_double (2 ^ 53 + 1) = 2 ^ 53
  /\ round_to_double (2 ^ 53 + 2) = 2 ^ 53 + 2
  /\ round_to_double (2 ^ 53 + 3) = 2 ^ 53 + 4
  /\ round_to_double (2 ^ 54 - 1) = 2 ^ 54
  /\ round_to_double (2 ^ 54 + 1) = 2 ^ 54
  /\ round_to_double (2 ^ 54 + 2) = 2 ^ 54
  /\ round_to_double (2 ^ 54 + 3) = 2 ^ 54 + 4
  /\ round_to_double (2 ^ 54 + 6) = 2 ^ 54 + 8
  /\ round_to_double (- (2 ^ 53 + 1)) = - 2 ^ 53.
Proof. repeat split. Qed.

(** On a counter in range, [+ 1] adds one or, at 2^53, nothing, and stays
    in range. *)
Lemma js_add_in_range (c : Z) :
  counter_in_range c ->
  c <= js_add c 1 <= c + 1 /\ counter_in_range (js_add c 1).
Proof.
  unfold counter_in_range. intros Hc.
  destruct (decide (c = 2 ^ 53)) as [-> | Hne].
  - rewrite js_add_saturated. lia.
  - rewrite js_add_exact by (unfold exact_counter; lia). lia.
Qed.

(** ** The line scan *)

Lemma line_winner_three (board : Board) (a b c : Z) (p : Player) :
  line_winner board [a; b; c] = Some p <-> line_marked board [a; b; c] p.
Proof.
  unfold line_winner, line_marked. split.
  - destruct (arr_get board a) as [[v|]|] eqn:Ha; try discriminate.
    do 2 case_bool_decide; simpl; try discriminate.
    intros [= <-]. repeat constructor; assumption.
  - intros Hall.
    apply Forall_cons in Hall as [Ha Hall].
    apply Forall_cons in Hall as [Hb Hall].
    apply Forall_cons in Hall as [Hc _].
    rewrite Ha. by rewrite !bool_decide_eq_true_2.
Qed.

Lemma WINNING_LINES_three (line : list Z) :
  In line WINNING_LINES -> exists a b c, line = [a; b; c].
Proof.
  unfold WINNING_LINES. simpl.
  intros H. repeat (destruct H as [<- | H]; [by eauto |]). destruct H.
Qed.

Lemma line_winner_marked (board : Board) (line : list Z) (p : Player) :
  In line WINNING_LINES ->
  line_winner board line = Some p <-> line_marked board line p.
Proof.
  intros (a & b & c & ->)%WINNING_LINES_three. apply line_winner_three.
Qed.

Lemma line_winner_None (board : Board) (line : list Z) :
  In line WINNING_LINES ->
  (forall q, ~ line_marked board line q) -> line_winner board line = None.
Proof.
  intros Hin Hno. destruct (line_winner board line) as [p|] eqn:Hw; [|reflexivity].
  apply line_winner_marked in Hw; [|assumption]. by destruct (Hno p).
Qed.

Lemma getWinner_scan_skip (board : Board) (before rest : list (list Z)) :
  (forall l, In l before -> line_winner board l = None) ->
  getWinner_scan (before ++ rest) board = getWinner_scan rest board.
Proof.
  induction before as [|l before IH]; intros Hnone; [reflexivity|].
  simpl. rewrite (Hnone l) by (left; reflexivity).
  apply IH. intros l' Hl'. apply Hnone. by right.
Qed.

(** The loop stops at the first line that has a winner, and returns nothing
    when no line has one. *)
Lemma getWinner_scan_cases (board : Board) (lines : list (list Z)) :
  (exists before line after p,
      lines = before ++ line :: after /\
      (forall l, In l before -> line_winner board l = None) /\
      line_winner board line = Some p /\
      getWinner_scan lines board = {| winner := Some p; winningLine := Some line |})
  \/
  ((forall l, In l lines -> line_winner board l = None) /\
   getWinner_scan lines board = {| winner := None; winningLine := None |}).
Proof.
  induction lines as [|l lines IH].
  - right. split; [intros l []|reflexivity].
  - simpl. destruct (line_winner board l) as [p|] eqn:Hl.
    + left. exists [], l, lines, p. repeat split; try done.
    + destruct IH as [(before & line & after & p & -> & Hb & Hw & Hr) | [Hnone Hr]].
      * left. exists (l :: before), line, after, p. repeat split; try done.
        intros l' [<- | Hin]; [assumption | by apply Hb].
      * right. split; [|assumption].
        intros l' [<- | Hin]; [assumption | by apply Hnone].
Qed.

(** The two fields of the result are set together. *)
Lemma getWinner_fields (board : Board) :
  (exists p line, getWinner board = {| winner := Some p; winningLine := Some line |})
  \/ getWinner board = {| winner := None; winningLine := None |}.
Proof.
  unfold getWinner.
  destruct (getWinner_scan_cases board WINNING_LINES)
    as [(_ & line & _ & p & _ & _ & _ & Hr) | [_ Hr]]; eauto.
Qed.

(** ** Rule evaluation *)

(** C1. [getWinner] goes through the eight lines
    {0,1,2},{3,4,5},{6,7,8},{0,3,6},{1,4,7},{2,5,8},{0,4,8},{2,4,6} in that
    order and returns the player and the line of the first line whose three
    cells hold the same mark; when no line holds three identical marks it
    returns no winner and no line; and a winner it returns always comes with
    such a line. *)
Theorem getWinner_first_line (board : Board) :
  WINNING_LINES =
    [[0; 1; 2]; [3; 4; 5]; [6; 7; 8]; [0; 3; 6];
     [1; 4; 7]; [2; 5; 8]; [0; 4; 8]; [2; 4; 6]]
  /\ (forall before line after p,
         WINNING_LINES = before ++ line :: after ->
         (forall l q, In l before -> ~ line_marked board l q) ->
         line_marked board line p ->
         getWinner board = {| winner := Some p; winningLine := Some line |})
  /\ ((forall l q, In l WINNING_LINES -> ~ line_marked board l q) ->
      getWinner board = {| winner := None; winningLine := None |})
  /\ (forall p, winner (getWinner board) = Some p ->
        exists line, In line WINNING_LINES
                     /\ winningLine (getWinner board) = Some line
                     /\ line_marked board line p).
Proof.
  split; [reflexivity|]. split; [|split].
  - intros before line after p Hsplit Hbefore Hline.
    assert (Hin : forall l, In l (before ++ line :: after) -> In l WINNING_LINES)
      by (intros l; by rewrite Hsplit).
    unfold getWinner. rewrite Hsplit, getWinner_scan_skip.
    + simpl. assert (line_winner board line = Some p) as ->; [|reflexivity].
      apply line_winner_marked; [|assumption].
      apply Hin, in_or_app. right. by left.
    + intros l Hl. apply line_winner_None.
      * apply Hin, in_or_app. by left.
      * intros q. by apply Hbefore.
  - intros Hno. unfold getWinner.
    destruct (getWinner_scan_cases board WINNING_LINES)
      as [(before & line & after & p & Hsplit & _ & Hw & _) | [_ Hr]]; [|assumption].
    assert (Hin : In line WINNING_LINES).
    { rewrite Hsplit. apply in_or_app. right. by left. }
    apply line_winner_marked in Hw; [|assumption]. by destruct (Hno line p).
  - intros p. unfold getWinner.
    destruct (getWinner_scan_cases board WINNING_LINES)
      as [(before & line & after & q & Hsplit & _ & Hw & ->) | [_ ->]];
      simpl; [|discriminate].
    intros [= ->]. exists line.
    assert (Hin : In line WINNING_LINES).
    { rewrite Hsplit. apply in_or_app. right. by left. }
    split; [assumption|]. split; [reflexivity|].
    by apply line_winner_marked.
Qed.

(** A top row of X is found first; an empty board has no winner. *)
Lemma getWinner_first_line_witness :
  getWinner top_row_board
  = {| winner := Some PlayerX; winningLine := Some [0; 1; 2] |}
  /\ getWinner createEmptyBoard = {| winner := None; winningLine := None |}.
Proof.
  split.
  - apply (proj1 (proj2 (getWinner_first_line top_row_board))
             [] [0; 1; 2]
             [[3; 4; 5]; [6; 7; 8]; [0; 3; 6]; [1; 4; 7]; [2; 5; 8]; [0; 4; 8]; [2; 4; 6]]
             PlayerX).
    + reflexivity.
    + intros l q [].
    + repeat constructor.
  - apply (proj1 (proj2 (proj2 (getWinner_first_line createEmptyBoard)))).
    intros l q Hin Hall.
    assert (Hhd : exists a rest, l = a :: rest /\ 0 <= a <= 8).
    { simpl in Hin.
      repeat (destruct Hin as [<- | Hin]; [eexists _, _; split; [reflexivity | lia] |]).
      destruct Hin. }
    destruct Hhd as (a & rest & -> & Ha).
    apply Forall_cons in Hall as [Hcell _].
    assert (a = 0 \/ a = 1 \/ a = 2 \/ a = 3 \/ a = 4 \/ a = 5 \/ a = 6 \/ a = 7 \/ a = 8)
      as Hcases by lia.
    repeat (destruct Hcases as [-> | Hcases]; [discriminate Hcell |]).
    subst a. discriminate Hcell.
Defined.

(** For any array, [isDraw] holds exactly when every cell holds a mark and
    the scan finds no winner. *)
Lemma isDraw_full_no_winner (board : Board) :
  isDraw board = true <-> board_full board /\ winner (getWinner board) = None.
Proof.
  unfold isDraw. rewrite andb_true_iff, bool_decide_eq_true, forallb_forall.
  apply and_iff_compat_r. split.
  - intros Hall i Hi. destruct (arr_get_inside board i Hi) as [c Hc].
    assert (In c board) as Hin.
    { apply list_elem_of_In, list_elem_of_lookup.
      unfold arr_get in Hc. case_bool_decide; [eauto | discriminate]. }
    apply Hall, bool_decide_eq_true in Hin.
    destruct c as [p|]; [eauto | done].
  - intros Hfull c Hin. apply bool_decide_eq_true.
    apply list_elem_of_In, list_elem_of_lookup in Hin as [n Hn].
    destruct (Hfull (Z.of_nat n)) as [p Hp].
    { apply lookup_lt_Some in Hn. lia. }
    rewrite arr_get_of_nat, Hn in Hp. by injection Hp as ->.
Qed.

(** C2. On a board (nine cells), [isDraw] is true if and only if each of the
    cells 0..8 holds a mark and [getWinner] reports no winner. *)
Theorem isDraw_iff (board : Board) :
  length board = 9%nat ->
  (isDraw board = true <->
   (forall i, 0 <= i <= 8 -> exists p, arr_get board i = Some (Some p))
   /\ winner (getWinner board) = None).
Proof.
  intros Hlen. rewrite isDraw_full_no_winner. unfold board_full. rewrite Hlen.
  apply and_iff_compat_r.
  split; intros H i Hi; apply H; lia.
Qed.

(** The empty board is no draw: cell 0 holds no mark. *)
Lemma isDraw_iff_witness :
  isDraw createEmptyBoard = true <->
  (forall i, 0 <= i <= 8 -> exists p, arr_get createEmptyBoard i = Some (Some p))
  /\ winner (getWinner createEmptyBoard) = None.
Proof. apply (isDraw_iff createEmptyBoard). reflexivity. Defined.

(** C3. [computeStatus] reports the winner and line of [getWinner] when it
    has one, otherwise a draw when [isDraw] holds, otherwise the turn of
    [nextPlayer]; a full board with a winning line is reported as won, not
    as a draw. *)
Theorem computeStatus_precedence (board : Board) (nextPlayer : Player) :
  (forall w l,
      getWinner board = {| winner := Some w; winningLine := Some l |} ->
      computeStatus board nextPlayer = WON w l)
  /\ (winner (getWinner board) = None -> isDraw board = true ->
      computeStatus board nextPlayer = DRAW)
  /\ (winner (getWinner board) = None -> isDraw board = false ->
      computeStatus board nextPlayer = PLAYING nextPlayer)
  /\ (forall w, board_full board -> winner (getWinner board) = Some w ->
      computeStatus board nextPlayer <> DRAW
      /\ exists l, winningLine (getWinner board) = Some l
                   /\ computeStatus board nextPlayer = WON w l).
Proof.
  unfold computeStatus. split; [|split; [|split]].
  - intros w l ->. reflexivity.
  - intros -> ->. reflexivity.
  - intros -> ->. reflexivity.
  - intros w _ Hw.
    destruct (getWinner_fields board) as [(p & l & Hr) | Hr];
      rewrite Hr in Hw |- *; simpl in *; [|discriminate].
    injection Hw as ->. split; [discriminate | eauto].
Qed.

(** A full board with a top row of X is won by X. *)
Lemma computeStatus_precedence_witness :
  computeStatus full_board_top_row PlayerO = WON PlayerX [0; 1; 2]
  /\ computeStatus full_board_top_row PlayerO <> DRAW.
Proof.
  split.
  - apply (proj1 (computeStatus_precedence full_board_top_row PlayerO)).
    reflexivity.
  - apply (proj2 (proj2 (proj2 (computeStatus_precedence full_board_top_row PlayerO)))
             PlayerX).
    + intros i Hi. simpl in Hi.
      assert (i = 0 \/ i = 1 \/ i = 2 \/ i = 3 \/ i = 4 \/ i = 5 \/ i = 6 \/ i = 7 \/ i = 8)
        as Hcases by lia.
      repeat (destruct Hcases as [-> | Hcases]; [eexists; reflexivity |]).
      subst i. eexists; reflexivity.
    + reflexivity.
Defined.

(** ** The round controller *)

Lemma oppositePlayer_neq (p : Player) : oppositePlayer p <> p.
Proof. by destruct p. Qed.

Lemma oppositePlayer_involutive (p : Player) : oppositePlayer (oppositePlayer p) = p.
Proof. by destruct p. Qed.

Lemma computeStatus_PLAYING (board : Board) (nextPlayer p : Player) :
  computeStatus board nextPlayer = PLAYING p -> p = nextPlayer.
Proof.
  unfold computeStatus.
  destruct (winner (getWinner board)), (winningLine (getWinner board)),
    (isDraw board); congruence.
Qed.

(** The status does not depend on the turn unless the round is in progress. *)
Lemma computeStatus_terminal (board : Board) (p q : Player) :
  (forall r, computeStatus board p <> PLAYING r) ->
  computeStatus board q = computeStatus board p.
Proof.
  unfold computeStatus.
  destruct (winner (getWinner board)), (winningLine (getWinner board)),
    (isDraw board); try reflexivity; intros H; by destruct (H p).
Qed.

Lemma applyMove_not_playing (s : Session) (index : Z) :
  (forall p, status s <> PLAYING p) -> applyMove s index = s.
Proof.
  unfold applyMove, status. intros Hterm.
  destruct (computeStatus (board s) (nextPlayer s)) as [p| |] eqn:Hst;
    [by destruct (Hterm p) | reflexivity | reflexivity].
Qed.

Lemma applyMove_not_null (s : Session) (index : Z) :
  arr_get (board s) index <> Some None -> applyMove s index = s.
Proof.
  unfold applyMove. intros Hcell.
  destruct (computeStatus (board s) (nextPlayer s)); try reflexivity.
  by rewrite bool_decide_eq_true_2.
Qed.

Lemma applyMove_rejects (s : Session) (index : Z) :
  ~ accepted s index -> applyMove s index = s.
Proof.
  intros Hrej.
  destruct (status s) as [p| |] eqn:Hst.
  - apply applyMove_not_null. intros Hcell. apply Hrej. split; eauto.
  - apply applyMove_not_playing. intros p. rewrite Hst. discriminate.
  - apply applyMove_not_playing. intros p. rewrite Hst. discriminate.
Qed.

(** The session an accepted move produces. *)
Lemma applyMove_accepts (s : Session) (index : Z) :
  accepted s index ->
  applyMove s index =
    let next := arr_set (board s) index (Some (nextPlayer s)) in
    {| board := next;
       nextPlayer := oppositePlayer (nextPlayer s);
       scores :=
         match computeStatus next (oppositePlayer (nextPlayer s)) with
         | WON w _ => bump_player w (scores s)
         | DRAW => bump_draws (scores s)
         | PLAYING _ => scores s
         end |}.
Proof.
  intros [[p Hst] Hcell]. unfold applyMove. unfold status in Hst. rewrite Hst.
  rewrite bool_decide_eq_false_2; [reflexivity|]. intros Hne. by apply Hne.
Qed.

(** C4. With an index in 0..8, a move made when the status is won or drawn,
    or aimed at a cell that holds a mark, changes neither the board, nor
    the turn, nor the scores; [applyMove] is a total function, so the
    rejection raises nothing. *)
Theorem applyMove_rejected_unchanged (s : Session) (index : Z) :
  0 <= index <= 8 ->
  (exists w l, status s = WON w l)
  \/ status s = DRAW
  \/ (exists p, arr_get (board s) index = Some (Some p)) ->
  board (applyMove s index) = board s
  /\ nextPlayer (applyMove s index) = nextPlayer s
  /\ scores (applyMove s index) = scores s.
Proof.
  intros _ Hrej.
  assert (applyMove s index = s) as ->; [|done].
  destruct Hrej as [(w & l & Hst) | [Hst | [p Hcell]]].
  - apply applyMove_not_playing. intros p. rewrite Hst. discriminate.
  - apply applyMove_not_playing. intros p. rewrite Hst. discriminate.
  - apply applyMove_not_null. rewrite Hcell. discriminate.
Qed.

(** C5. In a round in progress with [p] to move, a move to an empty cell
    with index in 0..8 puts the mark of [p] at that index, keeps every other
    cell and the length of the board, and gives the turn to the opposite of
    [p], whatever the new status is; that status is the one computed from
    the new board and the opposite of [p]. *)
Theorem applyMove_accepted_effect (s : Session) (p : Player) (index : Z) :
  status s = PLAYING p ->
  0 <= index <= 8 ->
  arr_get (board s) index = Some None ->
  board (applyMove s index) = <[Z.to_nat index := Some p]> (board s)
  /\ arr_get (board (applyMove s index)) index = Some (Some p)
  /\ (forall j, j <> index ->
        arr_get (board (applyMove s index)) j = arr_get (board s) j)
  /\ length (board (applyMove s index)) = length (board s)
  /\ nextPlayer (applyMove s index) = oppositePlayer p
  /\ oppositePlayer p <> p
  /\ status (applyMove s index)
     = computeStatus (<[Z.to_nat index := Some p]> (board s)) (oppositePlayer p).
Proof.
  intros Hst Hidx Hcell.
  assert (Hp : p = nextPlayer s) by (by apply (computeStatus_PLAYING (board s))).
  assert (Hacc : accepted s index) by (split; eauto).
  assert (Hset : arr_set (board s) index (Some p)
                 = <[Z.to_nat index := Some p]> (board s)).
  { unfold arr_set. by rewrite bool_decide_eq_true_2 by lia. }
  unfold status. rewrite (applyMove_accepts s index Hacc). simpl.
  rewrite <- Hp, <- Hset.
  repeat split.
  - apply arr_get_set_eq. by apply arr_get_Some_range in Hcell.
  - intros j Hj. by apply arr_get_set_ne.
  - apply arr_set_length.
  - apply oppositePlayer_neq.
Qed.

(** After X has played cell 0, a second tap on cell 0 is rejected. *)
Lemma applyMove_rejected_unchanged_witness :
  arr_get (board corner_taken) 0 = Some (Some PlayerX)
  /\ board (applyMove corner_taken 0) = board corner_taken
  /\ nextPlayer (applyMove corner_taken 0) = nextPlayer corner_taken
  /\ scores (applyMove corner_taken 0) = scores corner_taken.
Proof.
  split; [reflexivity|].
  apply (applyMove_rejected_unchanged corner_taken 0); [lia|].
  right. right. exists PlayerX. reflexivity.
Defined.

(** The first move of a session: X takes the centre. *)
Lemma applyMove_accepted_effect_witness :
  status initialSession = PLAYING PlayerX
  /\ arr_get (board (applyMove initialSession 4)) 4 = Some (Some PlayerX)
  /\ nextPlayer (applyMove initialSession 4) = PlayerO.
Proof.
  split; [reflexivity|].
  pose proof (applyMove_accepted_effect initialSession PlayerX 4) as H.
  destruct H as (_ & Hcell & _ & _ & Hnext & _); [reflexivity | lia | reflexivity |].
  split; [exact Hcell | exact Hnext].
Defined.

(** A finished round takes no further move. *)
Lemma applyMove_terminal (s : Session) (index j : Z) :
  (forall q, status (applyMove s index) <> PLAYING q) ->
  applyMove (applyMove s index) j = applyMove s index.
Proof. apply applyMove_not_playing. Qed.

(** C6, as the code has it.  An accepted move whose resulting status is won
    by [w] adds one to the counter of [w], provided that counter is an
    integer from -2^53 to 2^53 - 1, where [+ 1] on a JavaScript number is
    exact, and leaves the other two counters as they were; one whose
    resulting status is a draw adds one to the draws counter, under the
    same proviso, and leaves the two player counters; an accepted move after
    which the round goes on, a rejected move and [restartRound] leave the
    three counters as they were.  After a move that ends the round every
    further move is rejected, so the round is counted once. *)
Theorem scores_counted_once (s : Session) (index : Z) :
  (accepted s index ->
   forall w l, status (applyMove s index) = WON w l ->
     (exact_counter (score_of w (scores s)) ->
      score_of w (scores (applyMove s index)) = score_of w (scores s) + 1)
     /\ score_of (oppositePlayer w) (scores (applyMove s index))
        = score_of (oppositePlayer w) (scores s)
     /\ draws (scores (applyMove s index)) = draws (scores s))
  /\ (accepted s index ->
      status (applyMove s index) = DRAW ->
      (exact_counter (draws (scores s)) ->
       draws (scores (applyMove s index)) = draws (scores s) + 1)
      /\ score_X (scores (applyMove s index)) = score_X (scores s)
      /\ score_O (scores (applyMove s index)) = score_O (scores s))
  /\ (accepted s index ->
      forall q, status (applyMove s index) = PLAYING q ->
      scores (applyMove s index) = scores s)
  /\ (~ accepted s index -> scores (applyMove s index) = scores s)
  /\ (forall startingPlayer, scores (restartRound s startingPlayer) = scores s)
  /\ (forall j, (forall q, status (applyMove s index) <> PLAYING q) ->
      scores (applyMove (applyMove s index) j) = scores (applyMove s index)).
Proof.
  split; [|split; [|split; [|split; [|split]]]].
  - intros Hacc w l. unfold status.
    rewrite (applyMove_accepts s index Hacc). simpl.
    intros ->. destruct w; (split; [apply js_add_exact | done]).
  - intros Hacc. unfold status.
    rewrite (applyMove_accepts s index Hacc). simpl.
    intros ->. split; [apply js_add_exact | done].
  - intros Hacc q. unfold status.
    rewrite (applyMove_accepts s index Hacc). simpl.
    intros ->. done.
  - intros Hrej. by rewrite applyMove_rejects.
  - reflexivity.
  - intros j Hterm. by rewrite applyMove_terminal.
Qed.

(** Scenario 2 of the specification: X completes the top row. *)
Lemma scores_counted_once_witness :
  accepted top_row_pending 2
  /\ status (applyMove top_row_pending 2) = WON PlayerX [0; 1; 2]
  /\ exact_counter (score_of PlayerX (scores top_row_pending))
  /\ score_of PlayerX (scores (applyMove top_row_pending 2))
     = score_of PlayerX (scores top_row_pending) + 1.
Proof.
  assert (Hacc : accepted top_row_pending 2).
  { split; [exists PlayerX|]; reflexivity. }
  assert (Hzero : score_of PlayerX (scores top_row_pending) = 0) by reflexivity.
  assert (Hexact : exact_counter (score_of PlayerX (scores top_row_pending))).
  { rewrite Hzero. unfold exact_counter. lia. }
  split; [exact Hacc|]. split; [reflexivity|]. split; [exact Hexact|].
  exact (proj1 (proj1 (scores_counted_once top_row_pending 2)
                  Hacc PlayerX [0; 1; 2] eq_refl) Hexact).
Defined.

(** With the counter of X at 2^53, the winning move of X is accepted and
    wins the round, and the counter of X stays at 2^53: the double nearest
    to 2^53 + 1 is 2^53. *)
Lemma scores_counted_once_counterexample :
  accepted top_row_pending_saturated 2
  /\ status (applyMove top_row_pending_saturated 2) = WON PlayerX [0; 1; 2]
  /\ score_of PlayerX (scores (applyMove top_row_pending_saturated 2))
     = score_of PlayerX (scores top_row_pending_saturated)
  /\ score_of PlayerX (scores (applyMove top_row_pending_saturated 2))
     <> score_of PlayerX (scores top_row_pending_saturated) + 1.
Proof.
  assert (Hsame : score_of PlayerX (scores (applyMove top_row_pending_saturated 2))
                  = score_of PlayerX (scores top_row_pending_saturated))
    by reflexivity.
  split; [split; [exists PlayerX|]; reflexivity|].
  split; [reflexivity|]. split; [exact Hsame|].
  rewrite Hsame. lia.
Qed.

(** C7. [restartRound], from any session and for any starting player (X when
    none is given), makes the board nine empty cells, gives the turn to the
    starting player and keeps the three counters; the status is then the
    turn of the starting player. *)
Theorem restartRound_effect (s : Session) (startingPlayer : option Player) :
  board (restartRound s startingPlayer)
  = [None; None; None; None; None; None; None; None; None]
  /\ nextPlayer (restartRound s startingPlayer)
     = match startingPlayer with Some p => p | None => PlayerX end
  /\ scores (restartRound s startingPlayer) = scores s
  /\ status (restartRound s startingPlayer)
     = PLAYING match startingPlayer with Some p => p | None => PlayerX end.
Proof. by destruct startingPlayer. Qed.

(** C8. [resetScoresAndRestart], from any session, sets the three counters
    to zero, makes the board nine empty cells and gives the turn to X; the
    status is then the turn of X. *)
Theorem resetScoresAndRestart_effect (s : Session) :
  scores (resetScoresAndRestart s) = {| score_X := 0; score_O := 0; draws := 0 |}
  /\ board (resetScoresAndRestart s)
     = [None; None; None; None; None; None; None; None; None]
  /\ nextPlayer (resetScoresAndRestart s) = PlayerX
  /\ status (resetScoresAndRestart s) = PLAYING PlayerX
  /\ resetScoresAndRestart s = initialSession.
Proof. done. Qed.

(** ** Invariant of the board *)

Lemma applyMove_length (s : Session) (index : Z) :
  length (board (applyMove s index)) = length (board s).
Proof.
  unfold applyMove.
  destruct (computeStatus (board s) (nextPlayer s)); try reflexivity.
  case_bool_decide; [reflexivity|]. simpl. apply arr_set_length.
Qed.

Lemma handle_length (s : Session) (e : Intent) :
  length (board s) = 9%nat -> length (board (handle s e)) = 9%nat.
Proof.
  intros Hlen. destruct e as [index|sp|]; simpl; [|reflexivity|reflexivity].
  by rewrite applyMove_length.
Qed.

Lemma run_length (es : list Intent) (s : Session) :
  length (board s) = 9%nat -> length (board (run s es)) = 9%nat.
Proof.
  revert s. induction es as [|e es IH]; intros s Hlen; [assumption|].
  simpl. apply IH. by apply handle_length.
Qed.

(** C9. The initial board has nine cells, [applyMove] with an index in 0..8
    keeps the length of the board, the two restarts produce a board of nine
    cells, and so the board of every session reached from the initial one by
    such operations has exactly nine cells. *)
Theorem reachable_board_length :
  length (board initialSession) = 9%nat
  /\ (forall s index, 0 <= index <= 8 ->
        length (board (applyMove s index)) = length (board s))
  /\ (forall s startingPlayer,
        length (board (restartRound s startingPlayer)) = 9%nat)
  /\ (forall s, length (board (resetScoresAndRestart s)) = 9%nat)
  /\ (forall es, Forall in_grid es ->
        length (board (run initialSession es)) = 9%nat).
Proof.
  split; [reflexivity|]. split; [|split; [|split]].
  - intros s index _. apply applyMove_length.
  - reflexivity.
  - reflexivity.
  - intros es _. by apply run_length.
Qed.

(** A round won by X, a restart with O, a move and a reset. *)
Lemma reachable_board_length_witness :
  length (board (run initialSession
                   [Tap 0; Tap 3; Tap 1; Tap 4; Tap 2; Tap 5;
                    RestartRound (Some PlayerO); Tap 8; ResetScores; Tap 4]))
  = 9%nat.
Proof.
  apply (proj2 (proj2 (proj2 (proj2 reachable_board_length)))).
  repeat constructor; simpl; lia.
Defined.

(** ** Indices outside the board *)

(** C10. On a board of nine cells and for an integer index outside 0..8, the
    read [prev[index]] gives [undefined], which is not [null], so
    [applyMove] returns the session as it is: board, turn and scores are
    unchanged, and nothing is raised. *)
Theorem applyMove_out_of_range (s : Session) (index : Z) :
  length (board s) = 9%nat ->
  index < 0 \/ 8 < index ->
  arr_get (board s) index = None
  /\ arr_get (board s) index <> Some None
  /\ applyMove s index = s
  /\ board (applyMove s index) = board s
  /\ nextPlayer (applyMove s index) = nextPlayer s
  /\ scores (applyMove s index) = scores s.
Proof.
  intros Hlen Hout.
  assert (Hget : arr_get (board s) index = None).
  { apply arr_get_outside. rewrite Hlen. lia. }
  assert (Hne : arr_get (board s) index <> Some None) by (by rewrite Hget).
  assert (Hsame : applyMove s index = s) by (by apply applyMove_not_null).
  by rewrite Hsame.
Qed.

(** Taps at 9 and at -1 on the initial session. *)
Lemma applyMove_out_of_range_witness :
  applyMove initialSession 9 = initialSession
  /\ applyMove initialSession (-1) = initialSession.
Proof.
  split.
  - apply (applyMove_out_of_range initialSession 9); [reflexivity | lia].
  - apply (applyMove_out_of_range initialSession (-1)); [reflexivity | lia].
Defined.

(** ** Scenarios of the specification *)

(** Scenario 2: X plays 0, 1, 2 with O on 3 and 4; X wins on the top row,
    its counter becomes 1 and later taps change nothing. *)
Example scenario_top_row :
  let s := run initialSession [Tap 0; Tap 3; Tap 1; Tap 4; Tap 2] in
  getWinner (board s) = {| winner := Some PlayerX; winningLine := Some [0; 1; 2] |}
  /\ scores s = {| score_X := 1; score_O := 0; draws := 0 |}
  /\ run s [Tap 5; Tap 6; Tap 0] = s.
Proof. repeat split. Qed.

(** Scenario 3: X on 0, 1, 5, 6, 8 and O on 2, 3, 4, 7 fill the board with
    no line; the round is a draw and the draws counter becomes 1. *)
Example scenario_draw :
  let s := run initialSession
             [Tap 0; Tap 2; Tap 1; Tap 3; Tap 5; Tap 4; Tap 6; Tap 7; Tap 8] in
  status s = DRAW
  /\ scores s = {| score_X := 0; score_O := 0; draws := 1 |}.
Proof. repeat split. Qed.

(** Scenario 4: after the win of scenario 2, a restart with O. *)
Example scenario_restart :
  let s := run initialSession
             [Tap 0; Tap 3; Tap 1; Tap 4; Tap 2; RestartRound (Some PlayerO)] in
  board s = createEmptyBoard
  /\ status s = PLAYING PlayerO
  /\ scores s = {| score_X := 1; score_O := 0; draws := 0 |}.
Proof. repeat split. Qed.

(** Scenario 5: a reset after a round. *)
Example scenario_reset :
  let s := run initialSession
             [Tap 0; Tap 3; Tap 1; Tap 4; Tap 2; RestartRound None; Tap 4; ResetScores] in
  scores s = {| score_X := 0; score_O := 0; draws := 0 |}
  /\ board s = createEmptyBoard
  /\ status s = PLAYING PlayerX.
Proof. repeat split. Qed.

(** ** Counting cells *)

Lemma count_cell_insert (b : Board) (n : nat) (x y c : Cell) :
  b !! n = Some x ->
  (count_cell c (<[n := y]> b) + (if decide (x = c) then 1 else 0)
   = count_cell c b + (if decide (y = c) then 1 else 0))%nat.
Proof.
  unfold count_cell. revert n.
  induction b as [|z b IH]; intros [|n] Hn; simpl in Hn; try discriminate.
  - injection Hn as ->. simpl. rewrite !filter_cons.
    repeat case_decide; simpl; lia.
  - specialize (IH n Hn). simpl. rewrite !filter_cons.
    repeat case_decide; simpl in *; lia.
Qed.

Lemma count_cell_partition (b : Board) :
  (empties b + marks PlayerX b + marks PlayerO b = length b)%nat.
Proof.
  unfold empties, marks, count_cell.
  induction b as [|[[|]|] b IH]; [reflexivity | | |];
    rewrite !filter_cons; repeat case_decide; try congruence; simpl; lia.
Qed.

(** The effect on the counts of writing a mark over an empty cell. *)
Lemma counts_after_move (b : Board) (i : Z) (p : Player) :
  arr_get b i = Some None ->
  marks p (arr_set b i (Some p)) = S (marks p b)
  /\ marks (oppositePlayer p) (arr_set b i (Some p)) = marks (oppositePlayer p) b
  /\ S (empties (arr_set b i (Some p))) = empties b.
Proof.
  unfold arr_get, arr_set, marks, empties. case_bool_decide; [|discriminate].
  intros Hcell.
  pose proof (count_cell_insert b _ None (Some p) (Some p) Hcell) as Hp.
  pose proof (count_cell_insert b _ None (Some p) (Some (oppositePlayer p)) Hcell) as Hq.
  pose proof (count_cell_insert b _ None (Some p) None Hcell) as He.
  destruct p; repeat case_decide; try congruence; try discriminate; lia.
Qed.

(** ** Lines and statuses *)

Lemma no_winner_no_line (b : Board) (l : list Z) (q : Player) :
  winner (getWinner b) = None -> In l WINNING_LINES -> ~ line_marked b l q.
Proof.
  unfold getWinner. intros Hw Hin Hl.
  destruct (getWinner_scan_cases b WINNING_LINES)
    as [(before & line & after & p & _ & _ & _ & Hr) | [Hnone _]].
  - rewrite Hr in Hw. discriminate.
  - apply line_winner_marked in Hl; [|assumption].
    rewrite (Hnone l Hin) in Hl. discriminate.
Qed.

Lemma winner_line_marked (b : Board) (w : Player) (l : list Z) :
  getWinner b = {| winner := Some w; winningLine := Some l |} ->
  In l WINNING_LINES /\ line_marked b l w.
Proof.
  unfold getWinner.
  destruct (getWinner_scan_cases b WINNING_LINES)
    as [(before & line & after & p & Hsplit & _ & Hw & ->) | [_ ->]];
    [|discriminate].
  intros [= <- <-].
  assert (Hin : In line WINNING_LINES).
  { rewrite Hsplit. apply in_or_app. right. by left. }
  split; [assumption | by apply line_winner_marked].
Qed.

Lemma computeStatus_WON (b : Board) (np w : Player) (l : list Z) :
  computeStatus b np = WON w l ->
  getWinner b = {| winner := Some w; winningLine := Some l |}.
Proof.
  unfold computeStatus.
  destruct (getWinner_fields b) as [(p & l' & ->) | ->]; simpl.
  - by intros [= -> ->].
  - by destruct (isDraw b).
Qed.

Lemma computeStatus_no_winner (b : Board) (np : Player) :
  (forall w l, computeStatus b np <> WON w l) -> winner (getWinner b) = None.
Proof.
  unfold computeStatus.
  destruct (getWinner_fields b) as [(p & l' & ->) | ->]; simpl; [|done].
  intros H. by destruct (H p l').
Qed.

Lemma status_PLAYING_no_line (s : Session) (p q : Player) (l : list Z) :
  status s = PLAYING p -> In l WINNING_LINES -> ~ line_marked (board s) l q.
Proof.
  intros Hst. apply no_winner_no_line.
  apply (computeStatus_no_winner _ (nextPlayer s)).
  intros w l'. unfold status in Hst. rewrite Hst. discriminate.
Qed.

(** A line that is marked after a write and was not before holds the
    written mark and goes through the written cell. *)
Lemma line_marked_after_move (b : Board) (i : Z) (p q : Player) (l : list Z) :
  ~ line_marked b l q ->
  line_marked (arr_set b i (Some p)) l q ->
  q = p /\ In i l.
Proof.
  unfold line_marked. intros Hbefore Hafter.
  destruct (in_dec Z.eq_dec i l) as [Hin | Hnotin].
  - split; [|assumption].
    rewrite Forall_forall in Hafter. apply list_elem_of_In, Hafter in Hin.
    pose proof (arr_get_Some_range _ _ _ Hin) as Hrange.
    rewrite arr_set_length in Hrange.
    rewrite arr_get_set_eq in Hin by assumption. congruence.
  - destruct Hbefore. rewrite Forall_forall in Hafter |- *.
    intros j Hj. rewrite <- (arr_get_set_ne b i j (Some p)); [by apply Hafter|].
    intros ->. by apply Hnotin, list_elem_of_In.
Qed.

Lemma empty_board_no_line (l : list Z) (q : Player) :
  In l WINNING_LINES -> ~ line_marked createEmptyBoard l q.
Proof. apply no_winner_no_line. reflexivity. Qed.

Lemma accepted_dec (s : Session) (index : Z) :
  accepted s index \/ ~ accepted s index.
Proof.
  unfold accepted.
  destruct (status s) as [p| |];
    [|right; by intros [[p [=]] _] | right; by intros [[p [=]] _]].
  destruct (arr_get (board s) index) as [[c|]|]; [right|left|right];
    try (by intros [_ [=]]). split; eauto.
Qed.

(** A property kept by every handler holds after every sequence of intents. *)
Lemma run_invariant (P : Session -> Prop) :
  (forall s e, P s -> P (handle s e)) ->
  forall es s, P s -> P (run s es).
Proof.
  intros Hstep es. induction es as [|e es IH]; intros s Hs; [assumption|].
  simpl. apply IH. by apply Hstep.
Qed.

(** ** Whole rounds *)

(** The balance of marks is kept by every handler. *)
Lemma run_balanced (es : list Intent) :
  (marks (nextPlayer (run initialSession es)) (board (run initialSession es))
   <= marks (oppositePlayer (nextPlayer (run initialSession es)))
        (board (run initialSession es))
   <= S (marks (nextPlayer (run initialSession es)) (board (run initialSession es))))%nat.
Proof.
  apply (run_invariant (fun s =>
    (marks (nextPlayer s) (board s)
     <= marks (oppositePlayer (nextPlayer s)) (board s)
     <= S (marks (nextPlayer s) (board s)))%nat)); [|vm_compute; lia].
  intros s [index|sp|] Hs; simpl; [| |vm_compute; lia].
  - destruct (accepted_dec s index) as [Hacc | Hrej].
    + rewrite (applyMove_accepts s index Hacc). simpl.
      destruct Hacc as [_ Hcell].
      destruct (counts_after_move (board s) index (nextPlayer s) Hcell)
        as (Hp & Hq & _).
      rewrite oppositePlayer_involutive, Hp, Hq. lia.
    + by rewrite (applyMove_rejects s index Hrej).
  - destruct sp as [[|]|]; vm_compute; lia.
Qed.

(** A marked line of a reachable board belongs to the last mover. *)
Lemma run_line_owner (es : list Intent) (l : list Z) (q : Player) :
  In l WINNING_LINES ->
  line_marked (board (run initialSession es)) l q ->
  q = oppositePlayer (nextPlayer (run initialSession es)).
Proof.
  revert l q.
  apply (run_invariant (fun s => forall l q, In l WINNING_LINES ->
           line_marked (board s) l q -> q = oppositePlayer (nextPlayer s))).
  - intros s [index|sp|] Hs l0 q0 Hin Hl; simpl in *;
      [|exfalso; by apply (empty_board_no_line l0 q0 Hin) ..].
    destruct (accepted_dec s index) as [Hacc | Hrej].
    + rewrite (applyMove_accepts s index Hacc) in Hl |- *. simpl in *.
      destruct Hacc as [[p Hst] _].
      apply line_marked_after_move in Hl as [-> _];
        [|by apply (status_PLAYING_no_line s p)].
      by rewrite oppositePlayer_involutive.
    + rewrite (applyMove_rejects s index Hrej) in Hl |- *. by apply (Hs l0).
  - intros l0 q0 Hin Hl. exfalso. by apply (empty_board_no_line l0 q0 Hin).
Qed.

(** X1. Whatever the taps, restarts and resets, the marks on the board stay
    balanced: the player whose turn it is has as many marks as the other
    player or one less, and empty cells and marks add up to nine. *)
Theorem reachable_marks_balanced (es : list Intent) :
  (marks (nextPlayer (run initialSession es)) (board (run initialSession es))
   <= marks (oppositePlayer (nextPlayer (run initialSession es)))
        (board (run initialSession es))
   <= S (marks (nextPlayer (run initialSession es)) (board (run initialSession es))))%nat
  /\ (empties (board (run initialSession es))
      + marks PlayerX (board (run initialSession es))
      + marks PlayerO (board (run initialSession es)) = 9)%nat.
Proof.
  split; [apply run_balanced|].
  rewrite count_cell_partition. apply run_length. reflexivity.
Qed.

(** X2. In a round in progress, a move that wins the round wins it for the
    player who made it, on a line of [WINNING_LINES] that goes through the
    cell just played. *)
Theorem win_through_played_cell
    (s : Session) (index : Z) (p w : Player) (l : list Z) :
  status s = PLAYING p ->
  status (applyMove s index) = WON w l ->
  w = p /\ In index l /\ In l WINNING_LINES
  /\ arr_get (board s) index = Some None.
Proof.
  intros Hst Hwon.
  destruct (accepted_dec s index) as [Hacc | Hrej];
    [|rewrite (applyMove_rejects s index Hrej), Hst in Hwon; discriminate].
  assert (Hp : p = nextPlayer s) by (by apply (computeStatus_PLAYING (board s))).
  unfold status in Hwon. rewrite (applyMove_accepts s index Hacc) in Hwon.
  simpl in Hwon. apply computeStatus_WON, winner_line_marked in Hwon as [Hin Hl].
  apply line_marked_after_move in Hl as [-> Hidx];
    [|by apply (status_PLAYING_no_line s p)].
  destruct Hacc as [_ Hcell]. by rewrite Hp.
Qed.

Lemma win_through_played_cell_witness :
  status top_row_pending = PLAYING PlayerX
  /\ status (applyMove top_row_pending 2) = WON PlayerX [0; 1; 2]
  /\ In 2 [0; 1; 2].
Proof.
  split; [reflexivity|]. split; [reflexivity|].
  exact (proj1 (proj2 (win_through_played_cell top_row_pending 2
                         PlayerX PlayerX [0; 1; 2] eq_refl eq_refl))).
Defined.

(** X3. On the board of every session reached from the initial one, a line
    of [WINNING_LINES] holding three identical marks holds the marks of the
    player who moved last (the opposite of [nextPlayer]); so the board never
    shows winning lines of both players. *)
Theorem reachable_line_owner (es : list Intent) (l l' : list Z) (q q' : Player) :
  In l WINNING_LINES ->
  line_marked (board (run initialSession es)) l q ->
  q = oppositePlayer (nextPlayer (run initialSession es))
  /\ (In l' WINNING_LINES ->
      line_marked (board (run initialSession es)) l' q' -> q' = q).
Proof.
  intros Hin Hl. split; [by apply (run_line_owner es l)|].
  intros Hin' Hl'.
  rewrite (run_line_owner es l q Hin Hl). by apply (run_line_owner es l').
Qed.

Lemma reachable_line_owner_witness :
  oppositePlayer
    (nextPlayer (run initialSession [Tap 0; Tap 3; Tap 1; Tap 4; Tap 2]))
  = PlayerX.
Proof.
  symmetry.
  refine (proj1 (reachable_line_owner [Tap 0; Tap 3; Tap 1; Tap 4; Tap 2]
                   [0; 1; 2] [0; 1; 2] PlayerX PlayerX _ _)).
  - left. reflexivity.
  - repeat constructor.
Defined.

Lemma run_taps_cons (s : Session) (index : Z) (idxs : list Z) :
  run s (Tap <$> (index :: idxs)) = run (applyMove s index) (Tap <$> idxs).
Proof. reflexivity. Qed.

Lemma run_taps_terminal (s : Session) (idxs : list Z) :
  (forall p, status s <> PLAYING p) -> run s (Tap <$> idxs) = s.
Proof.
  intros Hterm. induction idxs as [|index idxs IH]; [reflexivity|].
  by rewrite run_taps_cons, applyMove_not_playing.
Qed.

(** X4. Once a round is won or drawn, no sequence of taps, whatever the
    indices, changes the session: the board, the turn and the scores stay
    as they are until a restart. *)
Theorem finished_round_frozen (s : Session) (idxs : list Z) :
  is_playing (status s) = false ->
  run s (Tap <$> idxs) = s.
Proof.
  intros Hterm. apply run_taps_terminal.
  intros p Hst. rewrite Hst in Hterm. discriminate.
Qed.

Lemma finished_round_frozen_witness :
  run (applyMove top_row_pending 2) (Tap <$> [5; 6; 0; 7; -3; 12])
  = applyMove top_row_pending 2.
Proof.
  apply (finished_round_frozen (applyMove top_row_pending 2) [5; 6; 0; 7; -3; 12]).
  reflexivity.
Defined.

(** X5. Tapping the same cell twice in a row has the effect of tapping it
    once, in every session and for every index. *)
Theorem double_tap_idempotent (s : Session) (index : Z) :
  applyMove (applyMove s index) index = applyMove s index.
Proof.
  destruct (accepted_dec s index) as [Hacc | Hrej].
  - apply applyMove_not_null.
    rewrite (applyMove_accepts s index Hacc). simpl.
    destruct Hacc as [_ Hcell].
    rewrite arr_get_set_eq by (by apply arr_get_Some_range in Hcell).
    discriminate.
  - by rewrite !(applyMove_rejects s index Hrej).
Qed.

Lemma applyMove_keeps_mark (s : Session) (index j : Z) (p : Player) :
  arr_get (board s) j = Some (Some p) ->
  arr_get (board (applyMove s index)) j = Some (Some p).
Proof.
  intros Hj. destruct (accepted_dec s index) as [Hacc | Hrej].
  - rewrite (applyMove_accepts s index Hacc). simpl.
    rewrite arr_get_set_ne; [assumption|].
    intros ->. destruct Hacc as [_ Hcell]. congruence.
  - by rewrite (applyMove_rejects s index Hrej).
Qed.

(** X6. Within a round a mark that is on the board stays where it is: no
    sequence of taps overwrites, moves or erases it. *)
Theorem marks_persist (s : Session) (idxs : list Z) (j : Z) (p : Player) :
  arr_get (board s) j = Some (Some p) ->
  arr_get (board (run s (Tap <$> idxs))) j = Some (Some p).
Proof.
  revert s. induction idxs as [|index idxs IH]; intros s Hj; [assumption|].
  rewrite run_taps_cons. by apply IH, applyMove_keeps_mark.
Qed.

Lemma marks_persist_witness :
  arr_get (board (run corner_taken (Tap <$> [0; 4; 0; 8; 0]))) 0
  = Some (Some PlayerX).
Proof.
  apply (marks_persist corner_taken [0; 4; 0; 8; 0] 0 PlayerX). reflexivity.
Defined.

Lemma every_marked_no_empties (b : Board) :
  forallb (fun c => bool_decide (c <> None)) b = true <-> empties b = 0%nat.
Proof.
  unfold empties, count_cell.
  induction b as [|[p|] b IH]; [done | |].
  - rewrite filter_cons_False by done. simpl. exact IH.
  - rewrite filter_cons_True by done. simpl. split; discriminate.
Qed.

Lemma computeStatus_PLAYING_empties (b : Board) (np p : Player) :
  computeStatus b np = PLAYING p -> (0 < empties b)%nat.
Proof.
  unfold computeStatus, isDraw.
  destruct (getWinner_fields b) as [(w & l & ->) | ->]; simpl; [discriminate|].
  rewrite andb_true_r.
  destruct (forallb _ b) eqn:Hall; [discriminate|]. intros _.
  destruct (empties b) eqn:He; [|lia].
  apply every_marked_no_empties in He. congruence.
Qed.

Lemma computeStatus_DRAW_empties (b : Board) (np : Player) :
  computeStatus b np = DRAW -> empties b = 0%nat.
Proof.
  unfold computeStatus, isDraw.
  destruct (getWinner_fields b) as [(w & l & ->) | ->]; simpl; [discriminate|].
  rewrite andb_true_r.
  destruct (forallb _ b) eqn:Hall; [|discriminate]. intros _.
  by apply every_marked_no_empties.
Qed.

Lemma acceptsb_accepted (s : Session) (index : Z) :
  acceptsb s index = true <-> accepted s index.
Proof.
  unfold acceptsb, accepted. rewrite andb_true_iff, bool_decide_eq_true.
  apply and_iff_compat_r. destruct (status s) as [p| |]; simpl; split;
    try done; try (by intros [p' [=]]). eauto.
Qed.

Lemma accepted_moves_empties (idxs : list Z) (s : Session) :
  (accepted_moves s idxs + empties (board (run s (Tap <$> idxs)))
   = empties (board s))%nat.
Proof.
  revert s. induction idxs as [|index idxs IH]; intros s; [reflexivity|].
  rewrite run_taps_cons. simpl accepted_moves.
  specialize (IH (applyMove s index)).
  destruct (acceptsb s index) eqn:Hb.
  - apply acceptsb_accepted in Hb.
    assert (S (empties (board (applyMove s index))) = empties (board s)) as <-; [|lia].
    rewrite (applyMove_accepts s index Hb). simpl. destruct Hb as [_ Hcell].
    by destruct (counts_after_move (board s) index (nextPlayer s) Hcell)
      as (_ & _ & He).
  - assert (Hrej : ~ accepted s index).
    { intros Hacc%acceptsb_accepted. congruence. }
    rewrite (applyMove_rejects s index Hrej) in IH |- *. exact IH.
Qed.

(** X7. A round makes progress and ends.  While the status is playing the
    board has an empty cell; an accepted move fills exactly one empty cell
    and a rejected one fills none; over any sequence of taps the number of
    accepted moves plus the number of empty cells left is the number of
    empty cells at the start.  So a sequence of taps that starts on the
    empty board contains at most nine accepted moves, and when it contains
    nine the round is over. *)
Theorem round_progress (s : Session) (index : Z) (idxs : list Z) :
  (is_playing (status s) = true -> (0 < empties (board s))%nat)
  /\ (acceptsb s index = true <-> accepted s index)
  /\ (accepted s index ->
      S (empties (board (applyMove s index))) = empties (board s))
  /\ (~ accepted s index ->
      empties (board (applyMove s index)) = empties (board s))
  /\ (accepted_moves s idxs + empties (board (run s (Tap <$> idxs)))
      = empties (board s))%nat
  /\ (board s = createEmptyBoard -> (accepted_moves s idxs <= 9)%nat)
  /\ (board s = createEmptyBoard -> accepted_moves s idxs = 9%nat ->
      is_playing (status (run s (Tap <$> idxs))) = false).
Proof.
  assert (Hplay : forall s', is_playing (status s') = true ->
                             (0 < empties (board s'))%nat).
  { intros s'. destruct (status s') as [p| |] eqn:Hst; try discriminate.
    intros _. by apply (computeStatus_PLAYING_empties _ (nextPlayer s') p). }
  pose proof (accepted_moves_empties idxs s) as Hsum.
  split; [apply Hplay|]. split; [apply acceptsb_accepted|].
  split; [|split; [|split; [exact Hsum|split]]].
  - intros Hacc. rewrite (applyMove_accepts s index Hacc). simpl.
    destruct Hacc as [_ Hcell].
    by destruct (counts_after_move (board s) index (nextPlayer s) Hcell)
      as (_ & _ & He).
  - intros Hrej. by rewrite (applyMove_rejects s index Hrej).
  - intros Hb. rewrite Hb in Hsum.
    change (empties createEmptyBoard) with 9%nat in Hsum. lia.
  - intros Hb Hnine. rewrite Hb in Hsum.
    change (empties createEmptyBoard) with 9%nat in Hsum.
    destruct (is_playing (status (run s (Tap <$> idxs)))) eqn:Hst; [|reflexivity].
    apply Hplay in Hst. lia.
Qed.

(** A full round of nine accepted moves, with rejected taps in between. *)
Lemma round_progress_witness :
  accepted_moves initialSession [0; 2; 2; 1; 3; 5; 9; 4; 6; 0; 7; 8; 8] = 9%nat
  /\ is_playing (status (run initialSession
                           (Tap <$> [0; 2; 2; 1; 3; 5; 9; 4; 6; 0; 7; 8; 8])))
     = false.
Proof.
  split; [reflexivity|].
  apply (proj2 (proj2 (proj2 (proj2 (proj2 (proj2
           (round_progress initialSession 0
              [0; 2; 2; 1; 3; 5; 9; 4; 6; 0; 7; 8; 8]))))))); reflexivity.
Defined.

(** One move either keeps the scores, or ends the round and applies [+ 1]
    to exactly one counter. *)
Lemma applyMove_scores_cases (s : Session) (index : Z) :
  scores (applyMove s index) = scores s
  \/ (is_playing (status (applyMove s index)) = false
      /\ ((exists w, scores (applyMove s index) = bump_player w (scores s))
          \/ scores (applyMove s index) = bump_draws (scores s))).
Proof.
  destruct (accepted_dec s index) as [Hacc | Hrej];
    [|left; by rewrite (applyMove_rejects s index Hrej)].
  unfold status. rewrite (applyMove_accepts s index Hacc). simpl.
  destruct (computeStatus _ _) as [q|w l|]; [by left | right | right];
    (split; [reflexivity|]); eauto.
Qed.

(** The effect of one [+ 1] on counters in range. *)
Lemma bump_in_range (sc sc' : Scores) :
  (exists w, sc' = bump_player w sc) \/ sc' = bump_draws sc ->
  scores_in_range sc ->
  score_X sc <= score_X sc'
  /\ score_O sc <= score_O sc'
  /\ draws sc <= draws sc'
  /\ rounds_counted sc' <= rounds_counted sc + 1
  /\ scores_in_range sc'.
Proof.
  unfold scores_in_range, rounds_counted. intros Hbump (HX & HO & HD).
  destruct (js_add_in_range _ HX) as [HX1 HX2].
  destruct (js_add_in_range _ HO) as [HO1 HO2].
  destruct (js_add_in_range _ HD) as [HD1 HD2].
  unfold counter_in_range in *.
  destruct Hbump as [[[|] ->] | ->];
    cbn [bump_player bump_draws score_X score_O draws]; lia.
Qed.

Lemma handle_scores_in_range (s : Session) (e : Intent) :
  scores_in_range (scores s) -> scores_in_range (scores (handle s e)).
Proof.
  intros Hs. destruct e as [index|sp|]; simpl; [|assumption|].
  - destruct (applyMove_scores_cases s index) as [-> | [_ Hbump]]; [assumption|].
    by apply (bump_in_range (scores s)).
  - unfold scores_in_range, counter_in_range. simpl. lia.
Qed.

Lemma run_scores_in_range (es : list Intent) :
  scores_in_range (scores (run initialSession es)).
Proof.
  apply (run_invariant (fun s => scores_in_range (scores s))).
  - apply handle_scores_in_range.
  - unfold scores_in_range, counter_in_range. simpl. lia.
Qed.

(** X8. The counters of every session reached from the initial one are
    integers from 0 to 2^53.  From a session whose counters are in that
    range, a sequence of taps, however long, finishes at most one round: no
    counter decreases, the sum of the three counters grows by at most one,
    and the counters stay in the range. *)
Theorem taps_finish_at_most_one_round (s : Session) (idxs : list Z) :
  (forall es, scores_in_range (scores (run initialSession es)))
  /\ (scores_in_range (scores s) ->
      score_X (scores s) <= score_X (scores (run s (Tap <$> idxs)))
      /\ score_O (scores s) <= score_O (scores (run s (Tap <$> idxs)))
      /\ draws (scores s) <= draws (scores (run s (Tap <$> idxs)))
      /\ rounds_counted (scores (run s (Tap <$> idxs)))
         <= rounds_counted (scores s) + 1
      /\ scores_in_range (scores (run s (Tap <$> idxs)))).
Proof.
  split; [apply run_scores_in_range|].
  revert s. induction idxs as [|index idxs IH]; intros s Hs;
    [simpl; repeat split; try lia; apply Hs|].
  rewrite run_taps_cons.
  destruct (applyMove_scores_cases s index) as [Hsame | [Hterm Hbump]].
  - rewrite <- Hsame. apply IH. by rewrite Hsame.
  - rewrite run_taps_terminal.
    + by apply bump_in_range.
    + intros p Hst. rewrite Hst in Hterm. discriminate.
Qed.

Lemma taps_finish_at_most_one_round_witness :
  rounds_counted (scores (run top_row_pending_saturated (Tap <$> [2; 5; 6; 2])))
  <= rounds_counted (scores top_row_pending_saturated) + 1.
Proof.
  apply (proj2 (taps_finish_at_most_one_round top_row_pending_saturated [2; 5; 6; 2])).
  unfold scores_in_range, counter_in_range. simpl. lia.
Defined.

(** X9. In every session reached from the initial one the three counters
    are non-negative. *)
Theorem reachable_scores_nonneg (es : list Intent) :
  0 <= score_X (scores (run initialSession es))
  /\ 0 <= score_O (scores (run initialSession es))
  /\ 0 <= draws (scores (run initialSession es)).
Proof.
  destruct (run_scores_in_range es) as (HX & HO & HD).
  unfold counter_in_range in *. lia.
Qed.

(** ** The render *)

(** X10. For the cell rendered at an index of the board, the [disabled]
    flag is off exactly when [applyMove] accepts a move there: pressing a
    disabled cell would change nothing, and pressing an enabled cell puts
    the mark of the player to move in that cell and passes the turn. *)
Theorem enabled_cell_iff_accepted (s : Session) (idx : Z) (cell : Cell) :
  arr_get (board s) idx = Some cell ->
  (isDisabled s cell = false <-> accepted s idx)
  /\ (isDisabled s cell = true -> applyMove s idx = s)
  /\ (isDisabled s cell = false ->
      arr_get (board (applyMove s idx)) idx = Some (Some (nextPlayer s))
      /\ nextPlayer (applyMove s idx) = oppositePlayer (nextPlayer s)).
Proof.
  intros Hcell.
  assert (Hiff : isDisabled s cell = false <-> accepted s idx).
  { unfold isDisabled, accepted. rewrite Hcell, orb_false_iff, negb_false_iff.
    rewrite bool_decide_eq_false. split.
    - intros [Hnull Hplay]. split.
      + destruct (status s) as [p| |]; try discriminate. eauto.
      + destruct cell; [by destruct Hnull | reflexivity].
    - intros [[p ->] [= ->]]. split; [|reflexivity]. by intros []. }
  split; [exact Hiff|]. split.
  - intros Hdis. apply applyMove_rejects. intros Hacc%Hiff. congruence.
  - intros Hacc%Hiff. rewrite (applyMove_accepts s idx Hacc). simpl.
    split; [|reflexivity].
    apply arr_get_set_eq. by apply arr_get_Some_range in Hcell.
Qed.

Lemma enabled_cell_iff_accepted_witness :
  isDisabled corner_taken (Some PlayerX) = true
  /\ applyMove corner_taken 0 = corner_taken.
Proof.
  split; [reflexivity|].
  apply (proj1 (proj2 (enabled_cell_iff_accepted corner_taken 0 (Some PlayerX) eq_refl))).
  reflexivity.
Defined.

Lemma WINNING_LINES_size (l : list Z) :
  In l WINNING_LINES -> size (list_to_set l : gset Z) = 3%nat.
Proof.
  unfold WINNING_LINES. simpl. intros H.
  repeat (destruct H as [<- | H]; [by vm_compute |]). destruct H.
Qed.

(** X11. The highlighted cells: a cell is in [winningSet] only when the
    round is won, it is then a cell of the winning line and holds the mark
    of the winner; a won round highlights exactly three cells, and a round
    that is not won highlights none. *)
Theorem winningSet_cells (s : Session) :
  (forall idx, isWinningCell s idx = true ->
     exists w l, status s = WON w l /\ In idx l
                 /\ arr_get (board s) idx = Some (Some w))
  /\ (forall w l, status s = WON w l -> size (winningSet s) = 3%nat)
  /\ ((forall w l, status s <> WON w l) -> forall idx, isWinningCell s idx = false).
Proof.
  unfold isWinningCell, winningSet. split; [|split].
  - intros idx Hin. apply bool_decide_eq_true in Hin.
    destruct (status s) as [p|w l|] eqn:Hst;
      [by apply not_elem_of_empty in Hin | | by apply not_elem_of_empty in Hin].
    exists w, l. split; [reflexivity|].
    apply elem_of_list_to_set, list_elem_of_In in Hin. split; [assumption|].
    apply computeStatus_WON, winner_line_marked in Hst as [_ Hl].
    unfold line_marked in Hl. rewrite Forall_forall in Hl.
    by apply Hl, list_elem_of_In.
  - intros w l Hst. rewrite Hst.
    apply computeStatus_WON, winner_line_marked in Hst as [Hin _].
    by apply WINNING_LINES_size.
  - intros Hnot idx. apply bool_decide_eq_false.
    destruct (status s) as [p|w l|];
      [apply not_elem_of_empty | by destruct (Hnot w l) | apply not_elem_of_empty].
Qed.

Lemma winningSet_cells_witness :
  size (winningSet (applyMove top_row_pending 2)) = 3%nat.
Proof.
  apply (proj1 (proj2 (winningSet_cells (applyMove top_row_pending 2)))
           PlayerX [0; 1; 2]).
  reflexivity.
Defined.

(** ** The length of a round *)

Lemma three_lookups_marks (b : Board) (w : Player) (i j k : nat) :
  i <> j -> i <> k -> j <> k ->
  b !! i = Some (Some w) -> b !! j = Some (Some w) -> b !! k = Some (Some w) ->
  (3 <= marks w b)%nat.
Proof.
  intros Hij Hik Hjk Hi Hj Hk. unfold marks.
  pose proof (count_cell_insert b i (Some w) None (Some w) Hi) as H1.
  assert (Hj' : <[i := None]> b !! j = Some (Some w))
    by (by rewrite list_lookup_insert_ne).
  pose proof (count_cell_insert _ j (Some w) None (Some w) Hj') as H2.
  assert (Hk' : <[j := None]> (<[i := None]> b) !! k = Some (Some w))
    by (by rewrite !list_lookup_insert_ne).
  pose proof (count_cell_insert _ k (Some w) None (Some w) Hk') as H3.
  repeat case_decide; try congruence; try discriminate. lia.
Qed.

Lemma arr_get_lookup {A : Type} (arr : list A) (i : Z) (v : A) :
  arr_get arr i = Some v -> 0 <= i /\ arr !! Z.to_nat i = Some v.
Proof. unfold arr_get. case_bool_decide; [done | discriminate]. Qed.

Lemma line_marked_three_marks (b : Board) (l : list Z) (w : Player) :
  In l WINNING_LINES -> line_marked b l w -> (3 <= marks w b)%nat.
Proof.
  intros Hin Hl.
  assert (Hdistinct : exists i j k, l = [i; j; k] /\ i <> j /\ i <> k /\ j <> k).
  { unfold WINNING_LINES in Hin. simpl in Hin.
    repeat (destruct Hin as [<- | Hin];
            [eexists _, _, _; split; [reflexivity | lia] |]).
    destruct Hin. }
  destruct Hdistinct as (i & j & k & -> & Hij & Hik & Hjk).
  apply Forall_cons in Hl as [[Hi0 Hi]%arr_get_lookup Hl].
  apply Forall_cons in Hl as [[Hj0 Hj]%arr_get_lookup Hl].
  apply Forall_cons in Hl as [[Hk0 Hk]%arr_get_lookup _].
  apply (three_lookups_marks b w (Z.to_nat i) (Z.to_nat j) (Z.to_nat k));
    try assumption; lia.
Qed.

(** X12. No round played from the initial session ends early: when the
    status is won, the winner is the player who moved last and has at least
    three marks while the other player has at least two, so at least five
    moves were made; when it is a draw, the player who moved last has five
    marks and the other player four. *)
Theorem reachable_round_length (es : list Intent) :
  (forall w l, status (run initialSession es) = WON w l ->
     w = oppositePlayer (nextPlayer (run initialSession es))
     /\ (3 <= marks w (board (run initialSession es)))%nat
     /\ (2 <= marks (oppositePlayer w) (board (run initialSession es)))%nat)
  /\ (status (run initialSession es) = DRAW ->
      marks (oppositePlayer (nextPlayer (run initialSession es)))
        (board (run initialSession es)) = 5%nat
      /\ marks (nextPlayer (run initialSession es))
           (board (run initialSession es)) = 4%nat).
Proof.
  pose proof (run_balanced es) as Hbal.
  pose proof (count_cell_partition (board (run initialSession es))) as Hpart.
  rewrite (run_length es initialSession eq_refl) in Hpart.
  split.
  - intros w l Hst.
    apply computeStatus_WON, winner_line_marked in Hst as [Hin Hl].
    pose proof (run_line_owner es l w Hin Hl) as Hw.
    pose proof (line_marked_three_marks _ l w Hin Hl) as H3.
    split; [assumption|]. split; [assumption|].
    rewrite Hw, oppositePlayer_involutive. rewrite Hw in H3. lia.
  - intros Hst. apply computeStatus_DRAW_empties in Hst.
    rewrite Hst in Hpart.
    revert Hbal.
    destruct (nextPlayer (run initialSession es));
      change (oppositePlayer PlayerX) with PlayerO;
      change (oppositePlayer PlayerO) with PlayerX; lia.
Qed.

Lemma reachable_round_length_witness :
  (3 <= marks PlayerX (board (run initialSession [Tap 0; Tap 3; Tap 1; Tap 4; Tap 2])))%nat.
Proof.
  apply (proj1 (reachable_round_length [Tap 0; Tap 3; Tap 1; Tap 4; Tap 2])
           PlayerX [0; 1; 2]).
  reflexivity.
Defined.

(** ** The two players are treated alike *)

Lemma arr_get_fmap {A B : Type} (f : A -> B) (arr : list A) (i : Z) :
  arr_get (f <$> arr) i = f <$> arr_get arr i.
Proof. unfold arr_get. case_bool_decide; [apply list_lookup_fmap | reflexivity]. Qed.

Lemma arr_set_fmap {A B : Type} (f : A -> B) (arr : list A) (i : Z) (v : A) :
  arr_set (f <$> arr) i (f v) = f <$> arr_set arr i v.
Proof.
  unfold arr_set. case_bool_decide; [|reflexivity].
  by rewrite list_fmap_insert.
Qed.

Lemma swap_cell_read (c : option Cell) (v : Player) :
  swap_cell <$> c = Some (Some (oppositePlayer v)) <-> c = Some (Some v).
Proof. destruct c as [[[|]|]|], v; vm_compute; split; congruence. Qed.

Lemma line_winner_swap (b : Board) (l : list Z) :
  line_winner (swap_board b) l = oppositePlayer <$> line_winner b l.
Proof.
  unfold line_winner, swap_board.
  destruct l as [|i [|j [|k rest]]]; try reflexivity.
  rewrite !arr_get_fmap.
  destruct (arr_get b i) as [[v|]|]; try reflexivity. simpl.
  rewrite (bool_decide_ext _ _ (swap_cell_read (arr_get b j) v)).
  rewrite (bool_decide_ext _ _ (swap_cell_read (arr_get b k) v)).
  by destruct (_ && _).
Qed.

Lemma getWinner_scan_swap (lines : list (list Z)) (b : Board) :
  getWinner_scan lines (swap_board b) = swap_result (getWinner_scan lines b).
Proof.
  induction lines as [|l lines IH]; [reflexivity|].
  simpl. rewrite line_winner_swap.
  destruct (line_winner b l); [reflexivity | exact IH].
Qed.

Lemma isDraw_swap (b : Board) : isDraw (swap_board b) = isDraw b.
Proof.
  unfold isDraw, getWinner. rewrite getWinner_scan_swap. f_equal.
  - unfold swap_board. induction b as [|c b IH]; [reflexivity|].
    change (swap_cell <$> c :: b) with (swap_cell c :: (swap_cell <$> b)).
    simpl. rewrite IH. by destruct c.
  - unfold swap_result. cbn [winner].
    destruct (winner (getWinner_scan WINNING_LINES b)); reflexivity.
Qed.

Lemma computeStatus_swap (b : Board) (np : Player) :
  computeStatus (swap_board b) (oppositePlayer np)
  = swap_status (computeStatus b np).
Proof.
  unfold computeStatus. rewrite isDraw_swap.
  unfold getWinner at 1 2. rewrite getWinner_scan_swap. fold (getWinner b).
  destruct (getWinner_fields b) as [(p & l & ->) | ->]; simpl; [reflexivity|].
  by destruct (isDraw b).
Qed.

Lemma applyMove_swap (s : Session) (index : Z) :
  applyMove (swap_session s) index = swap_session (applyMove s index).
Proof.
  unfold applyMove. simpl. rewrite computeStatus_swap.
  destruct (computeStatus (board s) (nextPlayer s)) as [p| |]; simpl;
    [|reflexivity|reflexivity].
  assert (Hnull : arr_get (swap_board (board s)) index <> Some None
                  <-> arr_get (board s) index <> Some None).
  { unfold swap_board. rewrite arr_get_fmap.
    by destruct (arr_get (board s) index) as [[|]|]. }
  rewrite (bool_decide_ext _ _ Hnull).
  case_bool_decide; [reflexivity|].
  change (Some (oppositePlayer (nextPlayer s)))
    with (swap_cell (Some (nextPlayer s))).
  unfold swap_board at 1 2. rewrite arr_set_fmap. fold (swap_board (arr_set (board s) index (Some (nextPlayer s)))).
  rewrite computeStatus_swap. unfold swap_session. simpl. f_equal.
  destruct (computeStatus _ _) as [q|w l|]; simpl; [reflexivity | | reflexivity].
  by destruct w.
Qed.

(** X13. The rules do not favour a player: on the board with the marks of X
    and O exchanged [getWinner] finds the same line for the other player,
    [isDraw] gives the same answer, and [computeStatus] gives the same
    status with the players exchanged. *)
Theorem rules_symmetric (b : Board) (np : Player) :
  getWinner (swap_board b) = swap_result (getWinner b)
  /\ isDraw (swap_board b) = isDraw b
  /\ computeStatus (swap_board b) (oppositePlayer np)
     = swap_status (computeStatus b np).
Proof.
  split; [apply getWinner_scan_swap|].
  split; [apply isDraw_swap | apply computeStatus_swap].
Qed.

(** X14. Exchanging the roles of X and O in a session (marks, turn and the
    two player counters) commutes with any sequence of taps: the same taps
    give the same game with the roles exchanged. *)
Theorem taps_symmetric (s : Session) (idxs : list Z) :
  run (swap_session s) (Tap <$> idxs) = swap_session (run s (Tap <$> idxs)).
Proof.
  revert s. induction idxs as [|index idxs IH]; intros s; [reflexivity|].
  by rewrite !run_taps_cons, applyMove_swap, IH.
Qed.

(** ** The status message *)

(** X15. The status message and its colour tell the states apart: two
    sessions with the same message have statuses of the same kind and with
    the same player (winner, or player to move), and two sessions with the
    same colour have statuses of the same kind. *)
Theorem status_message_identifies (s s' : Session) :
  (statusText s = statusText s' ->
   match status s, status s' with
   | PLAYING p, PLAYING q => p = q
   | WON w _, WON w' _ => w = w'
   | DRAW, DRAW => True
   | _, _ => False
   end)
  /\ (statusColor s = statusColor s' ->
      match status s, status s' with
      | PLAYING _, PLAYING _ | WON _ _, WON _ _ | DRAW, DRAW => True
      | _, _ => False
      end).
Proof.
  unfold statusText, statusColor.
  split; destruct (status s) as [[|]|[|] ?|], (status s') as [[|]|[|] ?|];
    simpl; intros H; try done; discriminate H.
Qed.

Lemma status_message_identifies_witness :
  match status initialSession, status (restartRound corner_taken None) with
  | PLAYING p, PLAYING q => p = q
  | WON w _, WON w' _ => w = w'
  | DRAW, DRAW => True
  | _, _ => False
  end.
Proof.
  apply (proj1 (status_message_identifies initialSession
                  (restartRound corner_taken None))).
  reflexivity.
Defined.

(** ** Arrays that are not boards *)

(** X16. [getWinner] reports a player only on an array that holds at least
    three marks of that player, on any array of cells; an array of fewer
    than three cells has no winner, and the empty array, on which
    [board.every] holds vacuously, has the status of a draw. *)
Theorem winner_needs_three_marks (b : Board) (np : Player) :
  (forall w, winner (getWinner b) = Some w ->
     (3 <= marks w b)%nat /\ (3 <= length b)%nat)
  /\ ((length b < 3)%nat -> winner (getWinner b) = None)
  /\ computeStatus [] np = DRAW.
Proof.
  assert (Hthree : forall w, winner (getWinner b) = Some w ->
            (3 <= marks w b)%nat /\ (3 <= length b)%nat).
  { intros w Hw.
    destruct (getWinner_fields b) as [(p & l & Hr) | Hr];
      rewrite Hr in Hw; simpl in Hw; [|discriminate].
    injection Hw as ->.
    apply winner_line_marked in Hr as [Hin Hl].
    pose proof (line_marked_three_marks b l w Hin Hl) as H3.
    pose proof (count_cell_partition b) as Hpart.
    split; [assumption|]. destruct w; lia. }
  split; [exact Hthree|]. split; [|reflexivity].
  intros Hlen. destruct (winner (getWinner b)) as [w|] eqn:Hw; [|reflexivity].
  destruct (Hthree w eq_refl). lia.
Qed.

Lemma winner_needs_three_marks_witness :
  (3 <= marks PlayerX top_row_board)%nat
  /\ winner (getWinner [Some PlayerX; Some PlayerX]) = None.
Proof.
  split.
  - apply (proj1 (winner_needs_three_marks top_row_board PlayerX) PlayerX).
    reflexivity.
  - apply (proj1 (proj2 (winner_needs_three_marks
                           [Some PlayerX; Some PlayerX] PlayerX))).
    simpl. lia.
Defined.
